(** * Automatic watering of indoor plants

    A shallow embedding of [PythonApplication1.py]: the moisture
    normalisation of [read_moisture_percentage], the relay driver
    [control_pump], the polling loop [main_loop] with its
    [try / except KeyboardInterrupt / finally] and [cleanup].

    Modelling choices.
    - Python [int] is [Z].  Python [float] is modelled by exact rationals
      [Q]: [0.0] is [0], [100.0] is [100], and [/] and [*] are exact.
      Rounding of binary64 arithmetic is not part of this model.
    - The user settings at the top of the script ([MOISTURE_DRY],
      [MOISTURE_WET], ...) are gathered in a record, so that statements can
      range over calibrations; [user_settings] holds the values written in
      the script.
    - Effects are explicit: a [world] carries the analog channel, the GPIO
      output levels, the pending Ctrl-C and the list of observable events.
      Exceptions are outcomes of a computation, and the state reached when
      an exception is raised is kept, as in Python. *)

From Stdlib Require Import ZArith QArith List Bool Lia Arith.
Import ListNotations.

Local Open Scope Z_scope.

(** ** User settings *)

Record settings : Type := {
  MOISTURE_DRY : Z;        (* sensor value in dry soil *)
  MOISTURE_WET : Z;        (* sensor value in wet soil *)
  THRESHOLD_PERCENT : Q;   (* water below this moisture *)
  PUMP_TIME_SEC : Q;       (* how long the pump runs *)
  CHECK_INTERVAL_SEC : Q;  (* pause between two checks *)
  RELAY_PIN : Z            (* GPIO pin of the relay *)
}.

Definition user_settings : settings := {|
  MOISTURE_DRY := 25000;
  MOISTURE_WET := 15000;
  THRESHOLD_PERCENT := 40;
  PUMP_TIME_SEC := 3;
  CHECK_INTERVAL_SEC := 60;
  RELAY_PIN := 17
|}.

(** ** Exceptions and pure results *)

Inductive exn : Type :=
| KeyboardInterrupt
| ZeroDivisionError
| ValueError.

Inductive result (A : Type) : Type :=
| Ok (a : A)
| Err (e : exn).

Arguments Ok {A} a.
Arguments Err {A} e.

(** ** Python arithmetic on the values the script uses *)

(** [a / b] on two [int]s: true division, which raises on a zero divisor. *)
Definition truediv (a b : Z) : result Q :=
  if b =? 0 then Err ZeroDivisionError
  else Ok (inject_Z a / inject_Z b)%Q.

(** [x < y] on numbers. *)
Definition Qltb (x y : Q) : bool :=
  match (x ?= y)%Q with
  | Lt => true
  | _ => false
  end.

(** [max(a, b)]: the first argument is kept unless the second is larger. *)
Definition py_max (a b : Q) : Q := if Qltb a b then b else a.

(** [min(a, b)]: the first argument is kept unless the second is smaller. *)
Definition py_min (a b : Q) : Q := if Qltb b a then b else a.

(** ** The moisture normaliser

    The body of [read_moisture_percentage] after [raw_value] has been read
    from the channel.  The division operator is a parameter, so that a
    statement can say that a result does not depend on it; [normalize]
    instantiates it with Python's [truediv]. *)

Definition normalize_with (divide : Z -> Z -> result Q)
    (cfg : settings) (raw_value : Z) : result Q :=
  if raw_value >=? MOISTURE_DRY cfg then Ok 0%Q
  else if raw_value <=? MOISTURE_WET cfg then Ok 100%Q
  else
    match divide (MOISTURE_DRY cfg - raw_value)
                 (MOISTURE_DRY cfg - MOISTURE_WET cfg) with
    | Err e => Err e
    | Ok quotient =>
        let percentage := (quotient * 100)%Q in
        Ok (py_max 0 (py_min 100 percentage))
    end.

Definition normalize : settings -> Z -> result Q := normalize_with truediv.

(** A division that always faults: any computation that evaluates it fails. *)
Definition faulty_division (_ _ : Z) : result Q := Err ZeroDivisionError.

(** ** The world the script runs in *)

Inductive level : Type := LOW | HIGH.

(** What the script prints, one constructor per [print] of the source.  The
    wall-clock stamp of the status line is not recorded. *)
Inductive message : Type :=
| MsgInit
| MsgReady
| MsgConfig (threshold pump_time : Q)
| MsgRule
| MsgStatus (moisture : Q) (raw_value : Z)
| MsgBelowThreshold (threshold : Q)
| MsgMoistureFine
| MsgNextCheck (interval : Q)
| MsgPumpOn (duration : Q)
| MsgPumpOff
| MsgStopped
| MsgCleanup
| MsgDone.

Inductive event : Type :=
| Sampled (raw_value : Z)          (* channel.value returned raw_value *)
| Printed (m : message)            (* print(...) *)
| Output (pin : Z) (l : level)     (* GPIO.output(pin, l) *)
| Slept (seconds : Q)              (* time.sleep(seconds) ran to its end *)
| GpioSetmode                      (* GPIO.setmode(GPIO.BOARD) *)
| GpioSetup (pin : Z)              (* GPIO.setup(pin, GPIO.OUT) *)
| ChannelOpened                    (* the I2C bus, the ADS1115 and AnalogIn *)
| GpioCleanup.                     (* GPIO.cleanup() *)

Record world : Type := {
  adc : nat -> Z;          (* the i-th conversion result of the channel *)
  conversions : nat;       (* how many conversions were read so far *)
  gpio : Z -> level;       (* the level last driven on each pin *)
  sigint : option nat;     (* Ctrl-C arrives after this many further
                              operations; None: no Ctrl-C is coming *)
  trace : list event       (* what happened so far, oldest first *)
}.

Definition set_sigint (s : option nat) (w : world) : world :=
  {| adc := adc w; conversions := conversions w; gpio := gpio w;
     sigint := s; trace := trace w |}.

Definition log (e : event) (w : world) : world :=
  {| adc := adc w; conversions := conversions w; gpio := gpio w;
     sigint := sigint w; trace := trace w ++ [e] |}.

Definition next_conversion (w : world) : world :=
  {| adc := adc w; conversions := S (conversions w); gpio := gpio w;
     sigint := sigint w; trace := trace w |}.

Definition drive (pin : Z) (l : level) (w : world) : world :=
  {| adc := adc w; conversions := conversions w;
     gpio := fun p => if p =? pin then l else gpio w p;
     sigint := sigint w; trace := trace w |}.

(** The relay is active-low: the pump runs while the pin is [LOW]. *)
Inductive ActuatorState : Type := Idle | Active.

Definition actuator_state (cfg : settings) (w : world) : ActuatorState :=
  match gpio w (RELAY_PIN cfg) with
  | HIGH => Idle
  | LOW => Active
  end.

(** ** Computations: state, exceptions and a loop that may still be running *)

Inductive outcome (A : Type) : Type :=
| Normal (a : A)       (* returned a *)
| Raised (e : exn)     (* an exception is propagating *)
| Running.             (* the iteration budget of the model ran out *)

Arguments Normal {A} a.
Arguments Raised {A} e.
Arguments Running {A}.

Definition M (A : Type) : Type := world -> outcome A * world.

Definition ret {A} (a : A) : M A := fun w => (Normal a, w).

Definition raise {A} (e : exn) : M A := fun w => (Raised e, w).

Definition bind {A B} (m : M A) (f : A -> M B) : M B :=
  fun w =>
    match m w with
    | (Normal a, w1) => f a w1
    | (Raised e, w1) => (Raised e, w1)
    | (Running, w1) => (Running, w1)
    end.

Notation "x <- m ;; k" := (bind m (fun x => k))
  (at level 61, m at next level, right associativity).
Notation "m ;; k" := (bind m (fun _ => k))
  (at level 61, right associativity).

Definition lift {A} (r : result A) : M A :=
  match r with
  | Ok a => ret a
  | Err e => raise e
  end.

(** [try: m  except KeyboardInterrupt: handler]. *)
Definition except_KeyboardInterrupt (m handler : M unit) : M unit :=
  fun w =>
    match m w with
    | (Raised KeyboardInterrupt, w1) => handler w1
    | other => other
    end.

(** [try: m  finally: final]: [final] runs however [m] ends; an exception of
    [final] replaces the outcome of [m]. *)
Definition finally {A} (m : M A) (final : M unit) : M A :=
  fun w =>
    match m w with
    | (Running, w1) => (Running, w1)
    | (o, w1) =>
        match final w1 with
        | (Normal _, w2) => (o, w2)
        | (Raised e, w2) => (Raised e, w2)
        | (Running, w2) => (Running, w2)
        end
    end.

(** [while True: body], cut after [fuel] iterations. *)
Fixpoint while_true (fuel : nat) (body : M unit) : M unit :=
  match fuel with
  | O => fun w => (Running, w)
  | S fuel' => body ;; while_true fuel' body
  end.

(** ** Primitive operations

    Each one is a point where a pending Ctrl-C can be delivered: the
    operation then raises [KeyboardInterrupt] without taking effect.  For
    [time.sleep] this is the signal arriving while the script is blocked. *)

Definition tick : M unit :=
  fun w =>
    match sigint w with
    | Some O => (Raised KeyboardInterrupt, set_sigint None w)
    | Some (S k) => (Normal tt, set_sigint (Some k) w)
    | None => (Normal tt, w)
    end.

Definition effect (f : world -> world) : M unit := fun w => (Normal tt, f w).

Definition channel_value : M Z :=
  tick ;;
  fun w =>
    let v := adc w (conversions w) in
    (Normal v, log (Sampled v) (next_conversion w)).

Definition print (m : message) : M unit :=
  tick ;; effect (log (Printed m)).

Definition GPIO_output (pin : Z) (l : level) : M unit :=
  tick ;; effect (fun w => log (Output pin l) (drive pin l w)).

Definition GPIO_setmode : M unit := tick ;; effect (log GpioSetmode).

Definition GPIO_setup (pin : Z) : M unit := tick ;; effect (log (GpioSetup pin)).

Definition GPIO_cleanup : M unit := tick ;; effect (log GpioCleanup).

Definition open_channel : M unit := tick ;; effect (log ChannelOpened).

(** [time.sleep] refuses a negative length. *)
Definition time_sleep (seconds : Q) : M unit :=
  if Qltb seconds 0 then raise ValueError
  else tick ;; effect (log (Slept seconds)).

(** ** The script *)

Section Script.

Variable cfg : settings.

Definition setup : M unit :=
  print MsgInit ;;
  GPIO_setmode ;;
  GPIO_setup (RELAY_PIN cfg) ;;
  GPIO_output (RELAY_PIN cfg) HIGH ;;
  open_channel ;;
  print MsgReady ;;
  print (MsgConfig (THRESHOLD_PERCENT cfg) (PUMP_TIME_SEC cfg)) ;;
  print MsgRule.

Definition read_moisture_percentage : M Q :=
  raw_value <- channel_value ;;
  lift (normalize cfg raw_value).

Definition control_pump (state : bool) (duration : Q) : M unit :=
  if state then
    print (MsgPumpOn duration) ;;
    GPIO_output (RELAY_PIN cfg) LOW ;;
    time_sleep duration ;;
    GPIO_output (RELAY_PIN cfg) HIGH ;;
    print MsgPumpOff
  else
    GPIO_output (RELAY_PIN cfg) HIGH.

(** The body of [while True] in [main_loop]. *)
Definition iteration : M unit :=
  moisture <- read_moisture_percentage ;;
  raw_value <- channel_value ;;
  print (MsgStatus moisture raw_value) ;;
  (if Qltb moisture (THRESHOLD_PERCENT cfg) then
     print (MsgBelowThreshold (THRESHOLD_PERCENT cfg)) ;;
     control_pump true (PUMP_TIME_SEC cfg)
   else
     print MsgMoistureFine) ;;
  print (MsgNextCheck (CHECK_INTERVAL_SEC cfg)) ;;
  print MsgRule ;;
  time_sleep (CHECK_INTERVAL_SEC cfg).

(** [control_pump(False)]: the default [duration] is [0]. *)
Definition cleanup : M unit :=
  print MsgCleanup ;;
  control_pump false 0 ;;
  GPIO_cleanup ;;
  print MsgDone.

Definition main_loop (fuel : nat) : M unit :=
  finally
    (except_KeyboardInterrupt (while_true fuel iteration) (print MsgStopped))
    cleanup.

Definition main (fuel : nat) : M unit :=
  setup ;; main_loop fuel.

(** What [control_pump(True, d)] leaves in the trace when it returns. *)
Definition pump_cycle (d : Q) : list event :=
  [ Printed (MsgPumpOn d); Output (RELAY_PIN cfg) LOW; Slept d;
    Output (RELAY_PIN cfg) HIGH; Printed MsgPumpOff ].

(** What [cleanup] leaves in the trace when it returns. *)
Definition teardown : list event :=
  [ Printed MsgCleanup; Output (RELAY_PIN cfg) HIGH; GpioCleanup;
    Printed MsgDone ].

End Script.

(** How often the pump was switched on in a list of events. *)
Fixpoint pump_starts (pin : Z) (evs : list event) : nat :=
  match evs with
  | [] => O
  | Output p LOW :: rest =>
      if p =? pin then S (pump_starts pin rest) else pump_starts pin rest
  | _ :: rest => pump_starts pin rest
  end.

(** The level of the last write to [pin] in a list of events, if any. *)
Fixpoint last_written (pin : Z) (evs : list event) : option level :=
  match evs with
  | [] => None
  | Output p l :: rest =>
      match last_written pin rest with
      | Some l' => Some l'
      | None => if p =? pin then Some l else None
      end
  | _ :: rest => last_written pin rest
  end.

(** A world in which the channel always converts to [v], the relay pin is
    at [l] and Ctrl-C is pending as [s]. *)
Definition steady_world (v : Z) (l : level) (s : option nat) : world :=
  {| adc := fun _ => v; conversions := O; gpio := fun _ => l;
     sigint := s; trace := [] |}.

(** The exact quotient of the interpolation branch. *)
Definition interpolation (cfg : settings) (raw_value : Z) : Q :=
  (inject_Z (MOISTURE_DRY cfg - raw_value)
   / inject_Z (MOISTURE_DRY cfg - MOISTURE_WET cfg) * 100)%Q.

(** A calibration whose two points coincide. *)
Definition coinciding_points : settings := {|
  MOISTURE_DRY := 20000;
  MOISTURE_WET := 20000;
  THRESHOLD_PERCENT := 40;
  PUMP_TIME_SEC := 3;
  CHECK_INTERVAL_SEC := 60;
  RELAY_PIN := 17
|}.

(** What the threshold test of an iteration leaves in the trace. *)
Definition decision_events (cfg : settings) (moisture : Q) : list event :=
  if Qltb moisture (THRESHOLD_PERCENT cfg) then
    Printed (MsgBelowThreshold (THRESHOLD_PERCENT cfg))
    :: pump_cycle cfg (PUMP_TIME_SEC cfg)
  else [Printed MsgMoistureFine].

(** What the end of an iteration leaves in the trace. *)
Definition pause_events (cfg : settings) : list event :=
  [ Printed (MsgNextCheck (CHECK_INTERVAL_SEC cfg)); Printed MsgRule;
    Slept (CHECK_INTERVAL_SEC cfg) ].

(** [interruptible d m]: run with Ctrl-C pending after [k] operations, [m]
    either raises [KeyboardInterrupt], after which no signal is pending, or
    returns with the signal still pending and at least [d] operations
    closer. *)
Definition interruptible {A} (d : nat) (m : M A) : Prop :=
  forall w k, sigint w = Some k ->
    (exists w', m w = (Raised KeyboardInterrupt, w') /\ sigint w' = None)
    \/ (exists a w' k', m w = (Normal a, w') /\ sigint w' = Some k'
                        /\ (k' + d <= k)%nat).

(** [signal_cleared m]: when [m] raises [KeyboardInterrupt], no signal is
    pending any more. *)
Definition signal_cleared {A} (m : M A) : Prop :=
  forall w w', m w = (Raised KeyboardInterrupt, w') -> sigint w' = None.




(** Ctrl-C arrives while [control_pump(True, 3.0)] is asleep: the relay is
    on when the signal is observed, and off when [main_loop] returns. *)


(** The events of one uninterrupted iteration whose first reading has
    percentage [p]; [r1] and [r2] are its two readings. *)
Definition iteration_events (cfg : settings) (p : Q) (r1 r2 : Z) : list event :=
  [ Sampled r1; Sampled r2; Printed (MsgStatus p r2) ]
  ++ decision_events cfg p ++ pause_events cfg.

(** What [setup] leaves in the trace when it returns. *)
Definition setup_events (cfg : settings) : list event :=
  [ Printed MsgInit; GpioSetmode; GpioSetup (RELAY_PIN cfg);
    Output (RELAY_PIN cfg) HIGH; ChannelOpened; Printed MsgReady;
    Printed (MsgConfig (THRESHOLD_PERCENT cfg) (PUMP_TIME_SEC cfg));
    Printed MsgRule ].


(** The script's settings with a negative pump time. *)
Definition negative_pump_time : settings := {|
  MOISTURE_DRY := 25000;
  MOISTURE_WET := 15000;
  THRESHOLD_PERCENT := 40;
  PUMP_TIME_SEC := -3;
  CHECK_INTERVAL_SEC := 60;
  RELAY_PIN := 17
|}.

(** * Properties of the normaliser *)

Lemma Qltb_lt (x y : Q) : Qltb x y = true <-> (x < y)%Q.
Proof.
  unfold Qltb. rewrite Qlt_alt.
  destruct (x ?= y)%Q; split; intro H; congruence.
Qed.

Lemma Qltb_ge (x y : Q) : Qltb x y = false <-> (y <= x)%Q.
Proof.
  split; intro H.
  - apply Qnot_lt_le. intro L. apply Qltb_lt in L. congruence.
  - destruct (Qltb x y) eqn:E; [ | reflexivity ].
    apply Qltb_lt in E. exfalso. exact (Qlt_not_le _ _ E H).
Qed.

Lemma py_max_keeps (a b : Q) : (a < b)%Q -> py_max a b = b.
Proof. intro H. unfold py_max. apply Qltb_lt in H. now rewrite H. Qed.

Lemma py_min_keeps (a b : Q) : (b < a)%Q -> py_min a b = b.
Proof. intro H. unfold py_min. apply Qltb_lt in H. now rewrite H. Qed.

Lemma inject_Z_pos (d : Z) : 0 < d -> (0 < inject_Z d)%Q.
Proof. intro H. unfold Qlt. simpl. lia. Qed.

Lemma ratio_bounds (n d : Z) :
  0 < n -> n < d -> (0 < inject_Z n / inject_Z d * 100 < 100)%Q.
Proof.
  intros Hn Hd.
  assert (Dpos : (0 < inject_Z d)%Q) by (apply inject_Z_pos; lia).
  split.
  - change 0%Q with (0 * 100)%Q. apply Qmult_lt_compat_r; [ reflexivity | ].
    apply Qlt_shift_div_l; [ exact Dpos | ].
    rewrite Qmult_0_l. apply inject_Z_pos. exact Hn.
  - change 100%Q with (1 * 100)%Q at 2.
    apply Qmult_lt_compat_r; [ reflexivity | ].
    apply Qlt_shift_div_r; [ exact Dpos | ].
    rewrite Qmult_1_l. rewrite <- Zlt_Qlt. exact Hd.
Qed.

Lemma ratio_monotone (n1 n2 d : Z) :
  0 < d -> n1 <= n2 ->
  (inject_Z n1 / inject_Z d * 100 <= inject_Z n2 / inject_Z d * 100)%Q.
Proof.
  intros Hd Hn.
  apply Qmult_le_compat_r; [ | discriminate ].
  unfold Qdiv. apply Qmult_le_compat_r.
  - rewrite <- Zle_Qle. exact Hn.
  - apply Qlt_le_weak, Qinv_lt_0_compat, inject_Z_pos. exact Hd.
Qed.

(** Between the calibration points the normaliser returns the interpolated
    value itself: the division succeeds and the clamp changes nothing. *)
Lemma normalize_interpolates (cfg : settings) (r : Z) :
  MOISTURE_WET cfg < r -> r < MOISTURE_DRY cfg ->
  normalize cfg r = Ok (interpolation cfg r).
Proof.
  intros Hw Hd. unfold normalize, normalize_with, truediv.
  destruct (r >=? MOISTURE_DRY cfg) eqn:E1; [ lia | ].
  destruct (r <=? MOISTURE_WET cfg) eqn:E2; [ lia | ].
  destruct (MOISTURE_DRY cfg - MOISTURE_WET cfg =? 0) eqn:E3; [ lia | ].
  destruct (ratio_bounds (MOISTURE_DRY cfg - r)
              (MOISTURE_DRY cfg - MOISTURE_WET cfg)) as [Lo Hi]; try lia.
  cbv zeta. rewrite (py_min_keeps _ _ Hi). rewrite (py_max_keeps _ _ Lo).
  reflexivity.
Qed.

(** When the dry point is not above the wet point, one of the two clamping
    tests always succeeds, whatever the division operator would do. *)
Lemma clamped_without_division (divide : Z -> Z -> result Q)
    (cfg : settings) (r : Z) :
  MOISTURE_DRY cfg <= MOISTURE_WET cfg ->
  normalize_with divide cfg r
  = Ok (if r >=? MOISTURE_DRY cfg then 0%Q else 100%Q).
Proof.
  intro H. unfold normalize_with.
  destruct (r >=? MOISTURE_DRY cfg) eqn:E1; [ reflexivity | ].
  destruct (r <=? MOISTURE_WET cfg) eqn:E2; [ reflexivity | lia ].
Qed.

(** The normaliser never fails, for any calibration: a zero divisor means
    equal calibration points, and then the division is not reached. *)
Lemma normalize_total (cfg : settings) (r : Z) :
  exists p, normalize cfg r = Ok p /\ (0 <= p <= 100)%Q.
Proof.
  destruct (Z_le_gt_dec (MOISTURE_DRY cfg) (MOISTURE_WET cfg)) as [Hle | Hgt].
  - unfold normalize. rewrite (clamped_without_division _ _ _ Hle).
    destruct (r >=? MOISTURE_DRY cfg); eexists; (split; [ reflexivity | ]);
      split; discriminate.
  - destruct (Z_lt_ge_dec r (MOISTURE_DRY cfg)) as [Hlt | Hge];
      [ destruct (Z_le_gt_dec r (MOISTURE_WET cfg)) as [Hw | Hw] | ].
    + exists 100%Q. split; [ | split; discriminate ].
      unfold normalize, normalize_with.
      destruct (r >=? MOISTURE_DRY cfg) eqn:E1; [ lia | ].
      destruct (r <=? MOISTURE_WET cfg) eqn:E2; [ reflexivity | lia ].
    + exists (interpolation cfg r).
      split; [ apply normalize_interpolates; lia | ].
      destruct (ratio_bounds (MOISTURE_DRY cfg - r)
                  (MOISTURE_DRY cfg - MOISTURE_WET cfg)) as [Lo Hi]; try lia.
      split; apply Qlt_le_weak; assumption.
    + exists 0%Q. split; [ | split; discriminate ].
      unfold normalize, normalize_with.
      destruct (r >=? MOISTURE_DRY cfg) eqn:E1; [ reflexivity | lia ].
Qed.

(** The script's own calibration maps the midpoint to fifty percent. *)
Example normalize_midpoint :
  exists p, normalize user_settings 20000 = Ok p /\ (p == 50)%Q.
Proof. eexists. split; [ reflexivity | reflexivity ]. Qed.

(** C4. With equal calibration points ([MOISTURE_DRY = MOISTURE_WET]) the
    normaliser returns a value for every raw reading, namely 0 or 100; it
    does not fail with [ZeroDivisionError]; and the result is the same for
    every division operator, also one that always faults, so that no
    division is evaluated. *)
Theorem normalize_degenerate_defined (cfg : settings) (r : Z) :
  MOISTURE_DRY cfg = MOISTURE_WET cfg ->
  (exists p, normalize cfg r = Ok p /\ (p = 0%Q \/ p = 100%Q))
  /\ normalize cfg r <> Err ZeroDivisionError
  /\ (forall divide, normalize_with divide cfg r = normalize cfg r).
Proof.
  intro H.
  assert (Hle : MOISTURE_DRY cfg <= MOISTURE_WET cfg) by lia.
  assert (E : forall divide, normalize_with divide cfg r
              = Ok (if r >=? MOISTURE_DRY cfg then 0%Q else 100%Q))
    by (intro; now apply clamped_without_division).
  unfold normalize. repeat split.
  - rewrite E. destruct (r >=? MOISTURE_DRY cfg); eauto.
  - rewrite E. discriminate.
  - intro divide. now rewrite !E.
Qed.

Lemma normalize_degenerate_defined_witness :
  (exists p, normalize coinciding_points 20001 = Ok p /\ (p = 0%Q \/ p = 100%Q))
  /\ normalize coinciding_points 20001 <> Err ZeroDivisionError
  /\ (forall divide,
        normalize_with divide coinciding_points 20001
        = normalize coinciding_points 20001).
Proof. apply (normalize_degenerate_defined coinciding_points 20001). reflexivity. Defined.

(** C5. Every raw reading at or above the dry point normalises to 0. *)
Theorem normalize_dry (cfg : settings) (r : Z) :
  r >= MOISTURE_DRY cfg -> normalize cfg r = Ok 0%Q.
Proof.
  intro H. unfold normalize, normalize_with.
  destruct (r >=? MOISTURE_DRY cfg) eqn:E; [ reflexivity | lia ].
Qed.

Lemma normalize_dry_witness : normalize user_settings 25000 = Ok 0%Q.
Proof. apply (normalize_dry user_settings 25000). simpl. lia. Defined.

(** C6, as the spec states it, fails: with coinciding calibration points a
    reading equal to both is at or below the wet point, and the normaliser
    returns 0, because the dry test comes first. *)
Lemma normalize_wet_needs_below_dry :
  20000 <= MOISTURE_WET coinciding_points
  /\ normalize coinciding_points 20000 = Ok 0%Q
  /\ normalize coinciding_points 20000 <> Ok 100%Q.
Proof. repeat split; [ simpl; lia | discriminate ]. Qed.

(** C6, amended. Every raw reading at or below the wet point and below the
    dry point normalises to 100; this covers every reading at or below the
    wet point when the dry point is above the wet point. *)
Theorem normalize_wet (cfg : settings) (r : Z) :
  r <= MOISTURE_WET cfg -> r < MOISTURE_DRY cfg ->
  normalize cfg r = Ok 100%Q.
Proof.
  intros Hw Hd. unfold normalize, normalize_with.
  destruct (r >=? MOISTURE_DRY cfg) eqn:E1; [ lia | ].
  destruct (r <=? MOISTURE_WET cfg) eqn:E2; [ reflexivity | lia ].
Qed.

Lemma normalize_wet_witness : normalize user_settings 15000 = Ok 100%Q.
Proof. apply (normalize_wet user_settings 15000); simpl; lia. Defined.



(** C10. When the dry point is not above the wet point the interpolation
    branch is not reached: for every division operator, also one that
    always faults, the result is exactly 0 when the reading is at or above
    the dry point and exactly 100 otherwise; so it lies in [0, 100] and no
    division is evaluated. *)
Theorem normalize_inverted_calibration (cfg : settings) (r : Z) :
  MOISTURE_DRY cfg <= MOISTURE_WET cfg ->
  (forall divide,
     normalize_with divide cfg r
     = Ok (if r >=? MOISTURE_DRY cfg then 0%Q else 100%Q))
  /\ normalize cfg r = normalize_with faulty_division cfg r
  /\ (exists p, normalize cfg r = Ok p /\ (0 <= p <= 100)%Q).
Proof.
  intro H. split; [ | split ].
  - intro divide. now apply clamped_without_division.
  - unfold normalize. now rewrite !clamped_without_division.
  - apply normalize_total.
Qed.

Lemma normalize_inverted_calibration_witness :
  (forall divide,
     normalize_with divide coinciding_points 19999
     = Ok (if 19999 >=? MOISTURE_DRY coinciding_points then 0%Q else 100%Q))
  /\ normalize coinciding_points 19999
     = normalize_with faulty_division coinciding_points 19999
  /\ (exists p, normalize coinciding_points 19999 = Ok p /\ (0 <= p <= 100)%Q).
Proof.
  apply (normalize_inverted_calibration coinciding_points 19999). simpl. lia.
Defined.

(** * Running the script *)

Lemma time_sleep_nonneg (d : Q) :
  (0 <= d)%Q -> time_sleep d = (tick ;; effect (log (Slept d))).
Proof. intro H. unfold time_sleep. now rewrite (proj2 (Qltb_ge d 0) H). Qed.

(** Unfolds the operations of the model on a world given by its fields. *)
Ltac run :=
  cbv [bind ret raise lift effect tick print GPIO_output GPIO_cleanup
       channel_value log drive next_conversion set_sigint
       adc conversions gpio sigint trace].

Lemma app_snoc5 {A} (t : list A) (a b c d e : A) :
  ((((t ++ [a]) ++ [b]) ++ [c]) ++ [d]) ++ [e] = t ++ [a; b; c; d; e].
Proof. now rewrite <- !app_assoc. Qed.

(** C8. For a duration [d >= 0], [control_pump(True, d)] returns when no
    Ctrl-C is pending; and whenever it returns, the relay pin is [HIGH], the
    actuator is idle, and the call has printed, driven the pin [LOW], slept
    [d] seconds, driven the pin [HIGH] and printed, in this order. *)
Theorem control_pump_on_returns_idle (cfg : settings) (d : Q) (w : world) :
  (0 <= d)%Q ->
  (sigint w = None -> exists w', control_pump cfg true d w = (Normal tt, w'))
  /\ (forall w', control_pump cfg true d w = (Normal tt, w') ->
        gpio w' (RELAY_PIN cfg) = HIGH
        /\ actuator_state cfg w' = Idle
        /\ trace w' = trace w ++ pump_cycle cfg d).
Proof.
  intro Hd. unfold control_pump. rewrite (time_sleep_nonneg d Hd).
  destruct w as [a n g s t]. split.
  - simpl. intros ->. eexists. run. reflexivity.
  - intros w'. unfold actuator_state, pump_cycle.
    destruct s as [k|].
    + do 5 (destruct k as [|k]; [ run; discriminate | ]).
      run. intro H. injection H as <-. cbn [gpio trace].
      rewrite Z.eqb_refl, app_snoc5. auto.
    + run. intro H. injection H as <-. cbn [gpio trace].
      rewrite Z.eqb_refl, app_snoc5. auto.
Qed.

Lemma control_pump_on_returns_idle_witness :
  (sigint (steady_world 26000 HIGH None) = None ->
   exists w',
     control_pump user_settings true 3 (steady_world 26000 HIGH None)
     = (Normal tt, w'))
  /\ (forall w',
        control_pump user_settings true 3 (steady_world 26000 HIGH None)
        = (Normal tt, w') ->
        gpio w' (RELAY_PIN user_settings) = HIGH
        /\ actuator_state user_settings w' = Idle
        /\ trace w' = trace (steady_world 26000 HIGH None)
                       ++ pump_cycle user_settings 3).
Proof.
  apply (control_pump_on_returns_idle user_settings 3
           (steady_world 26000 HIGH None)).
  discriminate.
Defined.

(** C9. From any world, after [control_pump(False)] has returned the relay
    pin is [HIGH]; a second call that returns leaves every pin, and so the
    actuator state, as the first call left it.  With no Ctrl-C pending both
    calls return, and a call on an idle actuator changes no pin. *)
Theorem deactivate_idempotent (cfg : settings) (w : world) :
  (forall w1 w2,
     control_pump cfg false 0 w = (Normal tt, w1) ->
     control_pump cfg false 0 w1 = (Normal tt, w2) ->
     gpio w1 (RELAY_PIN cfg) = HIGH
     /\ (forall pin, gpio w2 pin = gpio w1 pin)
     /\ actuator_state cfg w2 = actuator_state cfg w1
     /\ actuator_state cfg w1 = Idle)
  /\ (sigint w = None ->
      exists w1 w2,
        control_pump cfg false 0 w = (Normal tt, w1)
        /\ control_pump cfg false 0 w1 = (Normal tt, w2)
        /\ (actuator_state cfg w = Idle -> forall pin, gpio w1 pin = gpio w pin)).
Proof.
  unfold control_pump, actuator_state. destruct w as [a n g s t]. split.
  - intros w1 w2.
    destruct s as [[|[|k]]|]; run; try discriminate.
    all: intro H; injection H as <-; run; try discriminate.
    all: intro H; injection H as <-; cbn [gpio]; rewrite Z.eqb_refl.
    all: repeat split; try reflexivity.
    all: intro pin; destruct (pin =? RELAY_PIN cfg); reflexivity.
  - simpl. intros ->. do 2 eexists. run. repeat split.
    cbn [gpio]. intros Hidle pin.
    destruct (pin =? RELAY_PIN cfg) eqn:E; [ | reflexivity ].
    apply Z.eqb_eq in E. subst pin. now destruct (g (RELAY_PIN cfg)).
Qed.

Lemma deactivate_idempotent_witness :
  exists w1 w2,
    control_pump user_settings false 0 (steady_world 26000 LOW None)
    = (Normal tt, w1)
    /\ control_pump user_settings false 0 w1 = (Normal tt, w2)
    /\ gpio w1 (RELAY_PIN user_settings) = HIGH
    /\ (forall pin, gpio w2 pin = gpio w1 pin).
Proof.
  destruct (deactivate_idempotent user_settings (steady_world 26000 LOW None))
    as (Twice & Returns).
  destruct (Returns eq_refl) as (w1 & w2 & E1 & E2 & _).
  destruct (Twice w1 w2 E1 E2) as (G & Same & _).
  exists w1, w2. auto.
Defined.

(** ** Where a pending Ctrl-C ends up *)

Create HintDb script.

Lemma interruptible_ret {A} (a : A) : interruptible 0 (ret a).
Proof. intros w k H. right. exists a, w, k. repeat split; [ exact H | lia ]. Qed.

Lemma interruptible_effect (f : world -> world) :
  (forall w, sigint (f w) = sigint w) -> interruptible 0 (effect f).
Proof.
  intros Hf w k H. right. exists tt, (f w), k.
  repeat split; [ now rewrite Hf | lia ].
Qed.

Lemma interruptible_tick : interruptible 1 tick.
Proof.
  intros w k H. unfold tick. rewrite H. destruct k as [|k].
  - left. eexists. split; reflexivity.
  - right. exists tt, (set_sigint (Some k) w), k. repeat split. lia.
Qed.

Lemma interruptible_bind {A B} (d1 d2 : nat) (m : M A) (f : A -> M B) :
  interruptible d1 m -> (forall a, interruptible d2 (f a)) ->
  interruptible (d1 + d2) (bind m f).
Proof.
  intros Hm Hf w k H. unfold bind.
  destruct (Hm w k H) as [(w1 & E & S1) | (a & w1 & k1 & E & S1 & L1)];
    rewrite E.
  - left. eauto.
  - destruct (Hf a w1 k1 S1) as [(w2 & E2 & S2) | (b & w2 & k2 & E2 & S2 & L2)].
    + left. eauto.
    + right. exists b, w2, k2. repeat split; [ assumption .. | lia ].
Qed.


Lemma interruptible_print (m : message) : interruptible 1 (print m).
Proof.
  apply (interruptible_bind 1 0); [ apply interruptible_tick | ].
  intros _. now apply interruptible_effect.
Qed.

Lemma interruptible_output (pin : Z) (l : level) :
  interruptible 1 (GPIO_output pin l).
Proof.
  apply (interruptible_bind 1 0); [ apply interruptible_tick | ].
  intros _. now apply interruptible_effect.
Qed.

Lemma interruptible_sleep (d : Q) : (0 <= d)%Q -> interruptible 1 (time_sleep d).
Proof.
  intro H. rewrite (time_sleep_nonneg d H).
  apply (interruptible_bind 1 0); [ apply interruptible_tick | ].
  intros _. now apply interruptible_effect.
Qed.

Lemma interruptible_channel_value : interruptible 1 channel_value.
Proof.
  apply (interruptible_bind 1 0); [ apply interruptible_tick | ].
  intros _ w k H. right.
  exists (adc w (conversions w)), (log (Sampled (adc w (conversions w))) (next_conversion w)), k.
  repeat split; [ exact H | lia ].
Qed.

Lemma interruptible_normalize (cfg : settings) (r : Z) :
  interruptible 0 (lift (normalize cfg r)).
Proof.
  destruct (normalize_total cfg r) as (p & E & _). rewrite E.
  apply interruptible_ret.
Qed.

#[local] Hint Resolve interruptible_ret interruptible_tick interruptible_print
  interruptible_output interruptible_sleep interruptible_channel_value
  interruptible_normalize : script.





Lemma signal_cleared_tick : signal_cleared tick.
Proof.
  intros w w'. unfold tick.
  destruct (sigint w) as [[|k]|]; intro H; inversion H; reflexivity.
Qed.

Lemma signal_cleared_effect (f : world -> world) : signal_cleared (effect f).
Proof. intros w w' H. discriminate. Qed.

Lemma signal_cleared_ret {A} (a : A) : signal_cleared (ret a).
Proof. intros w w' H. discriminate. Qed.

Lemma signal_cleared_bind {A B} (m : M A) (f : A -> M B) :
  signal_cleared m -> (forall a, signal_cleared (f a)) ->
  signal_cleared (bind m f).
Proof.
  intros Hm Hf w w'. unfold bind.
  destruct (m w) as [[a | e |] w1] eqn:E; intro H.
  - exact (Hf a w1 w' H).
  - inversion H; subst. exact (Hm w w' E).
  - discriminate.
Qed.

Lemma signal_cleared_step (f : world -> world) :
  signal_cleared (tick ;; effect f).
Proof.
  apply signal_cleared_bind; [ apply signal_cleared_tick | ].
  intros _. apply signal_cleared_effect.
Qed.

Lemma signal_cleared_sleep (d : Q) : signal_cleared (time_sleep d).
Proof.
  unfold time_sleep. destruct (Qltb d 0).
  - intros w w' H. discriminate.
  - apply signal_cleared_step.
Qed.

Lemma signal_cleared_channel_value : signal_cleared channel_value.
Proof.
  apply signal_cleared_bind; [ apply signal_cleared_tick | ].
  intros _ w w' H. discriminate.
Qed.

Lemma signal_cleared_normalize (cfg : settings) (r : Z) :
  signal_cleared (lift (normalize cfg r)).
Proof.
  destruct (normalize_total cfg r) as (p & E & _). rewrite E.
  apply signal_cleared_ret.
Qed.

#[local] Hint Resolve signal_cleared_tick signal_cleared_ret signal_cleared_effect
  signal_cleared_step signal_cleared_sleep signal_cleared_channel_value
  signal_cleared_normalize : script.

Lemma signal_cleared_print (m : message) : signal_cleared (print m).
Proof. apply signal_cleared_step. Qed.

Lemma signal_cleared_output (pin : Z) (l : level) :
  signal_cleared (GPIO_output pin l).
Proof. apply signal_cleared_step. Qed.

#[local] Hint Resolve signal_cleared_print signal_cleared_output : script.





Lemma last_written_app (pin : Z) (l1 l2 : list event) :
  last_written pin (l1 ++ l2)
  = match last_written pin l2 with
    | Some l => Some l
    | None => last_written pin l1
    end.
Proof.
  induction l1 as [|e l1 IH]; cbn [app last_written].
  - now destruct (last_written pin l2).
  - destruct e; try exact IH. rewrite IH.
    destruct (last_written pin l2); reflexivity.
Qed.

Lemma last_written_teardown (cfg : settings) (evs : list event) :
  last_written (RELAY_PIN cfg) (evs ++ teardown cfg) = Some HIGH.
Proof.
  rewrite last_written_app. unfold teardown. cbn [last_written].
  now rewrite Z.eqb_refl.
Qed.

(** With no signal pending, [cleanup] runs to its end and switches the
    relay off. *)
Lemma cleanup_runs (cfg : settings) (w : world) :
  sigint w = None ->
  exists w', cleanup cfg w = (Normal tt, w')
    /\ trace w' = trace w ++ teardown cfg
    /\ gpio w' (RELAY_PIN cfg) = HIGH.
Proof.
  intro Hs. destruct w as [a n g s t]. cbn [sigint] in Hs. subst s.
  unfold cleanup, control_pump, teardown. run.
  eexists. split; [ reflexivity | ]. cbn [trace gpio].
  rewrite Z.eqb_refl, <- !app_assoc. auto.
Qed.


Lemma pump_starts_app (pin : Z) (l1 l2 : list event) :
  pump_starts pin (l1 ++ l2) = (pump_starts pin l1 + pump_starts pin l2)%nat.
Proof.
  induction l1 as [|e l1 IH]; cbn [app pump_starts]; [ reflexivity | ].
  destruct e as [ | | p [] | | | | | ]; try exact IH.
  destruct (p =? pin); [ now rewrite IH | exact IH ].
Qed.












(** * Further properties of the normaliser *)


Lemma normalize_at_dry (cfg : settings) (r : Z) :
  MOISTURE_DRY cfg <= r -> normalize cfg r = Ok 0%Q.
Proof.
  intro H. unfold normalize, normalize_with.
  destruct (r >=? MOISTURE_DRY cfg) eqn:E; [ reflexivity | lia ].
Qed.

Lemma normalize_at_wet (cfg : settings) (r : Z) :
  r <= MOISTURE_WET cfg -> r < MOISTURE_DRY cfg ->
  normalize cfg r = Ok 100%Q.
Proof.
  intros Hw Hd. unfold normalize, normalize_with.
  destruct (r >=? MOISTURE_DRY cfg) eqn:E1; [ lia | ].
  destruct (r <=? MOISTURE_WET cfg) eqn:E2; [ reflexivity | lia ].
Qed.

(** X2. With the dry point above the wet point the percentage never grows
    with the raw reading, over all readings: the clamped ends included. *)
Theorem normalize_monotone (cfg : settings) (r1 r2 : Z) :
  MOISTURE_WET cfg < MOISTURE_DRY cfg -> r1 <= r2 ->
  exists p1 p2,
    normalize cfg r1 = Ok p1 /\ normalize cfg r2 = Ok p2 /\ (p2 <= p1)%Q.
Proof.
  intros Hc H12.
  destruct (normalize_total cfg r1) as (p1 & E1 & Lo1 & Hi1).
  destruct (normalize_total cfg r2) as (p2 & E2 & Lo2 & Hi2).
  exists p1, p2. split; [ exact E1 | ]. split; [ exact E2 | ].
  destruct (Z_le_gt_dec (MOISTURE_DRY cfg) r2) as [Hd2 | Hd2].
  - rewrite (normalize_at_dry cfg r2 Hd2) in E2. injection E2 as <-. exact Lo1.
  - destruct (Z_le_gt_dec r1 (MOISTURE_WET cfg)) as [Hw1 | Hw1].
    + rewrite (normalize_at_wet cfg r1 Hw1) in E1 by lia.
      injection E1 as <-. exact Hi2.
    + rewrite normalize_interpolates in E1, E2 by lia.
      injection E1 as <-. injection E2 as <-.
      unfold interpolation. apply ratio_monotone; lia.
Qed.

Lemma normalize_monotone_witness :
  exists p1 p2,
    normalize user_settings 10000 = Ok p1
    /\ normalize user_settings 30000 = Ok p2 /\ (p2 <= p1)%Q.
Proof. apply (normalize_monotone user_settings 10000 30000); simpl; lia. Defined.





(** * Further properties of the script *)

Ltac run_setup :=
  unfold main, setup, GPIO_setmode, GPIO_setup, open_channel; run.



(** An uninterrupted iteration, with what it leaves of the pins. *)
Lemma iteration_effect (cfg : settings) (w : world) :
  (0 <= PUMP_TIME_SEC cfg)%Q -> (0 <= CHECK_INTERVAL_SEC cfg)%Q ->
  sigint w = None ->
  exists p w',
    normalize cfg (adc w (conversions w)) = Ok p
    /\ iteration cfg w = (Normal tt, w')
    /\ trace w' = trace w
         ++ iteration_events cfg p (adc w (conversions w))
              (adc w (S (conversions w)))
    /\ conversions w' = S (S (conversions w))
    /\ sigint w' = None
    /\ adc w' = adc w
    /\ (gpio w (RELAY_PIN cfg) = HIGH -> gpio w' (RELAY_PIN cfg) = HIGH).
Proof.
  intros Hp Hc Hs. destruct w as [a n g s t]. cbn [sigint] in Hs. subst s.
  destruct (normalize_total cfg (a n)) as (p & E & _).
  exists p. unfold iteration, read_moisture_percentage, control_pump.
  rewrite (time_sleep_nonneg _ Hp), (time_sleep_nonneg _ Hc).
  run. rewrite E.
  unfold iteration_events, decision_events, pause_events, pump_cycle.
  destruct (Qltb p (THRESHOLD_PERCENT cfg)); run;
    (eexists; split; [ reflexivity | ]; split; [ reflexivity | ];
     cbn [trace conversions sigint adc gpio];
     split; [ rewrite <- !app_assoc; reflexivity | ];
     repeat split; try rewrite Z.eqb_refl; auto).
Qed.





(** ** Start-up, the loop as a whole and interrupted calls *)

(** X6. [setup] runs outside the [try] of [main_loop]: a Ctrl-C that
    arrives within its eight operations leaves the program as
    [KeyboardInterrupt]; only the operations before the signal have run, so
    neither the stop message nor [GPIO.cleanup] occurs, and the relay pin
    was driven [HIGH] only if the signal came after the fourth operation. *)
Theorem setup_interrupted_skips_cleanup (cfg : settings) (fuel k : nat)
    (w : world) :
  sigint w = Some k -> (k < 8)%nat ->
  exists w',
    main cfg fuel w = (Raised KeyboardInterrupt, w')
    /\ trace w' = trace w ++ firstn k (setup_events cfg)
    /\ ~ In GpioCleanup (firstn k (setup_events cfg))
    /\ ~ In (Printed MsgStopped) (firstn k (setup_events cfg))
    /\ gpio w' (RELAY_PIN cfg)
       = if (k <=? 3)%nat then gpio w (RELAY_PIN cfg) else HIGH.
Proof.
  intros Hs Hk. destruct w as [a n g s t]. cbn [sigint] in Hs. subst s.
  unfold setup_events.
  do 8 (destruct k as [|k];
        [ run_setup; eexists; split; [ reflexivity | ];
          cbn [trace gpio firstn Nat.leb];
          split; [ rewrite <- ?app_assoc; cbn [app]; rewrite ?app_nil_r;
                   reflexivity | ];
          split; [ cbn [In]; intuition discriminate | ];
          split; [ cbn [In]; intuition discriminate | ];
          rewrite ?Z.eqb_refl; reflexivity
        | ]).
  lia.
Qed.

Lemma setup_interrupted_skips_cleanup_witness :
  exists w',
    main user_settings 5 (steady_world 20000 LOW (Some 2%nat))
    = (Raised KeyboardInterrupt, w')
    /\ trace w' = [] ++ firstn 2 (setup_events user_settings)
    /\ ~ In GpioCleanup (firstn 2 (setup_events user_settings))
    /\ ~ In (Printed MsgStopped) (firstn 2 (setup_events user_settings))
    /\ gpio w' 17 = LOW.
Proof.
  destruct (setup_interrupted_skips_cleanup user_settings 5 2
              (steady_world 20000 LOW (Some 2%nat)) eq_refl)
    as (w' & R & T & C1 & C2 & G); [ lia | ].
  exists w'. split; [ exact R | ]. split; [ exact T | ].
  split; [ exact C1 | ]. split; [ exact C2 | exact G ].
Defined.


(** What [main_loop] does once its loop has ended with an exception and no
    further signal is pending. *)
Lemma main_loop_after_loop (cfg : settings) (fuel : nat) (w w1 : world)
    (e : exn) :
  while_true fuel (iteration cfg) w = (Raised e, w1) ->
  sigint w1 = None ->
  exists w2,
    main_loop cfg fuel w
    = (match e with KeyboardInterrupt => Normal tt | _ => Raised e end, w2)
    /\ trace w2 = trace w1
         ++ match e with
            | KeyboardInterrupt => [Printed MsgStopped]
            | _ => []
            end ++ teardown cfg
    /\ last_written (RELAY_PIN cfg) (trace w2) = Some HIGH
    /\ gpio w2 (RELAY_PIN cfg) = HIGH.
Proof.
  intros E S1. unfold main_loop, finally, except_KeyboardInterrupt. rewrite E.
  assert (P : print MsgStopped w1 = (Normal tt, log (Printed MsgStopped) w1))
    by (unfold print, bind, tick, effect; now rewrite S1).
  destruct e.
  - rewrite P.
    destruct (cleanup_runs cfg (log (Printed MsgStopped) w1) S1)
      as (w2 & C & T & G).
    rewrite C. exists w2. split; [ reflexivity | ].
    assert (T' : trace w2 = trace w1 ++ [Printed MsgStopped] ++ teardown cfg)
      by (rewrite T; cbn [log trace]; now rewrite <- app_assoc).
    split; [ exact T' | ]. split; [ | exact G ].
    rewrite T. apply last_written_teardown.
  - destruct (cleanup_runs cfg w1 S1) as (w2 & C & T & G).
    rewrite C. exists w2. split; [ reflexivity | ].
    split; [ exact T | ]. split; [ | exact G ].
    rewrite T. apply last_written_teardown.
  - destruct (cleanup_runs cfg w1 S1) as (w2 & C & T & G).
    rewrite C. exists w2. split; [ reflexivity | ].
    split; [ exact T | ]. split; [ | exact G ].
    rewrite T. apply last_written_teardown.
Qed.



(** X8. While no Ctrl-C arrives the loop does not end: after any number
    [n] of iterations [main_loop] is still running, [cleanup] has not run,
    the sensor was read [2 * n] times, and a relay pin that was [HIGH] at
    the start is [HIGH] again after every iteration. *)
Theorem loop_keeps_pump_off (cfg : settings) (n : nat) (w : world) :
  (0 <= PUMP_TIME_SEC cfg)%Q -> (0 <= CHECK_INTERVAL_SEC cfg)%Q ->
  sigint w = None -> gpio w (RELAY_PIN cfg) = HIGH ->
  exists w',
    while_true n (iteration cfg) w = (Running, w')
    /\ main_loop cfg n w = (Running, w')
    /\ gpio w' (RELAY_PIN cfg) = HIGH
    /\ conversions w' = (conversions w + 2 * n)%nat
    /\ ~ In GpioCleanup (skipn (length (trace w)) (trace w')).
Proof.
  intros Hp Hc.
  assert (Loop : forall n w,
            sigint w = None -> gpio w (RELAY_PIN cfg) = HIGH ->
            exists w' evs,
              while_true n (iteration cfg) w = (Running, w')
              /\ gpio w' (RELAY_PIN cfg) = HIGH
              /\ conversions w' = (conversions w + 2 * n)%nat
              /\ trace w' = trace w ++ evs
              /\ ~ In GpioCleanup evs).
  { clear n w. induction n as [|n IH]; intros w Hs Hg.
    - exists w, []. cbn [while_true].
      split; [ reflexivity | ]. split; [ exact Hg | ].
      split; [ lia | ]. split; [ now rewrite app_nil_r | ].
      intros [].
    - destruct (iteration_effect cfg w Hp Hc Hs)
        as (p & w1 & _ & R & T & C & S1 & _ & G).
      destruct (IH w1 S1 (G Hg)) as (w2 & evs & L & G2 & C2 & T2 & N2).
      exists w2. eexists. cbn [while_true]. unfold bind. rewrite R.
      split; [ exact L | ]. split; [ exact G2 | ].
      split; [ rewrite C2, C; lia | ].
      split; [ rewrite T2, T, <- app_assoc; reflexivity | ].
      intro H. apply in_app_or in H. destruct H as [H | H]; [ | now apply N2 ].
      unfold iteration_events, decision_events, pause_events, pump_cycle in H.
      destruct (Qltb p (THRESHOLD_PERCENT cfg)); cbn [app In] in H;
        intuition discriminate. }
  intros Hs Hg.
  destruct (Loop n w Hs Hg) as (w' & evs & L & G & C & T & N).
  exists w'. split; [ exact L | ].
  split; [ unfold main_loop, finally, except_KeyboardInterrupt; now rewrite L | ].
  split; [ exact G | ]. split; [ exact C | ].
  rewrite T, skipn_app, skipn_all, Nat.sub_diag. exact N.
Qed.

Lemma loop_keeps_pump_off_witness :
  exists w',
    while_true 3 (iteration user_settings) (steady_world 26000 HIGH None)
    = (Running, w')
    /\ main_loop user_settings 3 (steady_world 26000 HIGH None) = (Running, w')
    /\ gpio w' 17 = HIGH
    /\ conversions w' = 6%nat
    /\ ~ In GpioCleanup (skipn 0 (trace w')).
Proof.
  destruct (loop_keeps_pump_off user_settings 3 (steady_world 26000 HIGH None))
    as (w' & L & M & G & C & N);
    [ discriminate | discriminate | reflexivity | reflexivity | ].
  exists w'. split; [ exact L | ]. split; [ exact M | ].
  split; [ exact G | ]. split; [ exact C | exact N ].
Defined.

Lemma time_sleep_negative (d : Q) : (d < 0)%Q -> time_sleep d = raise ValueError.
Proof. intro H. unfold time_sleep. now rewrite (proj2 (Qltb_lt d 0) H). Qed.

(** X9. [control_pump(True, d)] with a negative [d] fails in
    [time.sleep] after the relay was switched on: it raises [ValueError]
    and leaves the relay pin [LOW], the pump running. *)
Theorem control_pump_negative_duration (cfg : settings) (d : Q) (w : world) :
  (d < 0)%Q -> sigint w = None ->
  exists w',
    control_pump cfg true d w = (Raised ValueError, w')
    /\ gpio w' (RELAY_PIN cfg) = LOW
    /\ actuator_state cfg w' = Active
    /\ trace w' = trace w ++ [Printed (MsgPumpOn d); Output (RELAY_PIN cfg) LOW].
Proof.
  intros Hd Hs. destruct w as [a n g s t]. cbn [sigint] in Hs. subst s.
  unfold control_pump, actuator_state. rewrite (time_sleep_negative d Hd). run.
  eexists. split; [ reflexivity | ]. cbn [gpio trace].
  rewrite Z.eqb_refl, <- app_assoc. auto.
Qed.

Lemma control_pump_negative_duration_witness :
  exists w',
    control_pump user_settings true (-1) (steady_world 26000 HIGH None)
    = (Raised ValueError, w')
    /\ gpio w' 17 = LOW
    /\ actuator_state user_settings w' = Active
    /\ trace w' = [] ++ [Printed (MsgPumpOn (-1)); Output 17 LOW].
Proof.
  destruct (control_pump_negative_duration user_settings (-1)
              (steady_world 26000 HIGH None))
    as (w' & R & G & A & T); [ reflexivity | reflexivity | ].
  exists w'. split; [ exact R | ]. split; [ exact G | ].
  split; [ exact A | exact T ].
Defined.

(** X11. [control_pump(True, d)] does not protect itself: a Ctrl-C within
    its five operations leaves the call as [KeyboardInterrupt] with only
    the earlier operations done.  When the signal arrives during the sleep
    or at the second relay write, the relay pin is left [LOW]. *)
Theorem control_pump_interrupted (cfg : settings) (d : Q) (k : nat) (w : world) :
  (0 <= d)%Q -> sigint w = Some k -> (k < 5)%nat ->
  exists w',
    control_pump cfg true d w = (Raised KeyboardInterrupt, w')
    /\ trace w' = trace w ++ firstn k (pump_cycle cfg d)
    /\ gpio w' (RELAY_PIN cfg)
       = match k with
         | 0%nat | 1%nat => gpio w (RELAY_PIN cfg)
         | 2%nat | 3%nat => LOW
         | _ => HIGH
         end.
Proof.
  intros Hd Hs Hk. destruct w as [a n g s t]. cbn [sigint] in Hs. subst s.
  unfold control_pump, pump_cycle. rewrite (time_sleep_nonneg d Hd).
  do 5 (destruct k as [|k];
        [ run; eexists; split; [ reflexivity | ]; cbn [trace gpio firstn];
          split; [ rewrite <- ?app_assoc; cbn [app]; rewrite ?app_nil_r;
                   reflexivity | ];
          rewrite ?Z.eqb_refl; reflexivity
        | ]).
  lia.
Qed.

Lemma control_pump_interrupted_witness :
  exists w',
    control_pump user_settings true 3 (steady_world 26000 HIGH (Some 2%nat))
    = (Raised KeyboardInterrupt, w')
    /\ trace w' = [] ++ firstn 2 (pump_cycle user_settings 3)
    /\ gpio w' 17 = LOW.
Proof.
  destruct (control_pump_interrupted user_settings 3 2
              (steady_world 26000 HIGH (Some 2%nat)))
    as (w' & R & T & G); [ discriminate | reflexivity | lia | ].
  exists w'. split; [ exact R | ]. split; [ exact T | exact G ].
Defined.

(** X12. [cleanup] is not protected either: a Ctrl-C within its four
    operations leaves it as [KeyboardInterrupt]; when the signal arrives at
    its first print or at the relay write, the relay pin is left as it
    was. *)
Theorem cleanup_interrupted (cfg : settings) (k : nat) (w : world) :
  sigint w = Some k -> (k < 4)%nat ->
  exists w',
    cleanup cfg w = (Raised KeyboardInterrupt, w')
    /\ trace w' = trace w ++ firstn k (teardown cfg)
    /\ gpio w' (RELAY_PIN cfg)
       = if (k <=? 1)%nat then gpio w (RELAY_PIN cfg) else HIGH.
Proof.
  intros Hs Hk. destruct w as [a n g s t]. cbn [sigint] in Hs. subst s.
  unfold cleanup, control_pump, teardown.
  do 4 (destruct k as [|k];
        [ run; eexists; split; [ reflexivity | ];
          cbn [trace gpio firstn Nat.leb];
          split; [ rewrite <- ?app_assoc; cbn [app]; rewrite ?app_nil_r;
                   reflexivity | ];
          rewrite ?Z.eqb_refl; reflexivity
        | ]).
  lia.
Qed.

Lemma cleanup_interrupted_witness :
  exists w',
    cleanup user_settings (steady_world 26000 LOW (Some 1%nat))
    = (Raised KeyboardInterrupt, w')
    /\ trace w' = [] ++ firstn 1 (teardown user_settings)
    /\ gpio w' 17 = LOW.
Proof.
  destruct (cleanup_interrupted user_settings 1
              (steady_world 26000 LOW (Some 1%nat)))
    as (w' & R & T & G); [ reflexivity | lia | ].
  exists w'. split; [ exact R | ]. split; [ exact T | exact G ].
Defined.

(** X10. With a negative [PUMP_TIME_SEC], the first iteration whose
    percentage is below the threshold ends the loop with [ValueError] and
    the pump running; the [finally] of [main_loop] still runs [cleanup],
    which switches the relay off, and the exception propagates. *)
Theorem main_loop_negative_pump_time (cfg : settings) (fuel : nat) (w : world)
    (p : Q) :
  (PUMP_TIME_SEC cfg < 0)%Q -> sigint w = None ->
  normalize cfg (adc w (conversions w)) = Ok p ->
  (p < THRESHOLD_PERCENT cfg)%Q ->
  exists w1 w2,
    while_true (S fuel) (iteration cfg) w = (Raised ValueError, w1)
    /\ actuator_state cfg w1 = Active
    /\ main_loop cfg (S fuel) w = (Raised ValueError, w2)
    /\ trace w2 = trace w1 ++ teardown cfg
    /\ last_written (RELAY_PIN cfg) (trace w2) = Some HIGH
    /\ gpio w2 (RELAY_PIN cfg) = HIGH.
Proof.
  intros Hd Hs E Hp.
  assert (It : exists w1,
            iteration cfg w = (Raised ValueError, w1)
            /\ gpio w1 (RELAY_PIN cfg) = LOW /\ sigint w1 = None).
  { destruct w as [a n g s t]. cbn [sigint] in Hs. subst s.
    cbn [adc conversions] in E. apply Qltb_lt in Hp.
    unfold iteration, read_moisture_percentage, control_pump.
    rewrite (time_sleep_negative _ Hd). run. rewrite E. run. rewrite Hp. run.
    eexists. split; [ reflexivity | ]. cbn [gpio sigint].
    now rewrite Z.eqb_refl. }
  destruct It as (w1 & R & G1 & S1).
  assert (L : while_true (S fuel) (iteration cfg) w = (Raised ValueError, w1))
    by (cbn [while_true]; unfold bind; now rewrite R).
  destruct (main_loop_after_loop cfg (S fuel) w w1 ValueError L S1)
    as (w2 & M & T & LW & G).
  exists w1, w2. split; [ exact L | ].
  split; [ unfold actuator_state; now rewrite G1 | ].
  split; [ exact M | ]. split; [ exact T | ]. split; [ exact LW | exact G ].
Qed.

Lemma main_loop_negative_pump_time_witness :
  exists w1 w2,
    while_true 1 (iteration negative_pump_time) (steady_world 26000 HIGH None)
    = (Raised ValueError, w1)
    /\ actuator_state negative_pump_time w1 = Active
    /\ main_loop negative_pump_time 1 (steady_world 26000 HIGH None)
       = (Raised ValueError, w2)
    /\ trace w2 = trace w1 ++ teardown negative_pump_time
    /\ last_written 17 (trace w2) = Some HIGH
    /\ gpio w2 17 = HIGH.
Proof.
  destruct (main_loop_negative_pump_time negative_pump_time 0
              (steady_world 26000 HIGH None) 0)
    as (w1 & w2 & L & A & M & T & LW & G);
    [ reflexivity | reflexivity | reflexivity | reflexivity | ].
  exists w1, w2. split; [ exact L | ]. split; [ exact A | ].
  split; [ exact M | ]. split; [ exact T | ]. split; [ exact LW | exact G ].
Defined.

(** X1. [read_moisture_percentage] raises nothing but the
    [KeyboardInterrupt] of a signal due at once, for every calibration; in
    particular it never raises [ZeroDivisionError].  When it returns, the
    percentage lies between 0 and 100 and is the normalised next
    conversion, one conversion was read, and no pin was written. *)
Theorem read_moisture_percentage_in_range (cfg : settings) (w : world) :
  (forall e w', read_moisture_percentage cfg w = (Raised e, w') ->
                e = KeyboardInterrupt /\ sigint w = Some 0%nat)
  /\ (forall p w', read_moisture_percentage cfg w = (Normal p, w') ->
        (0 <= p <= 100)%Q
        /\ normalize cfg (adc w (conversions w)) = Ok p
        /\ conversions w' = S (conversions w)
        /\ trace w' = trace w ++ [Sampled (adc w (conversions w))]
        /\ (forall pin, gpio w' pin = gpio w pin))
  /\ (sigint w <> Some 0%nat ->
      exists p w', read_moisture_percentage cfg w = (Normal p, w')).
Proof.
  destruct w as [a n g s t].
  destruct (normalize_total cfg (a n)) as (p & E & Rng).
  unfold read_moisture_percentage. split; [ | split ].
  - intros e w'. destruct s as [[|k]|]; run; rewrite ?E; intro H;
      inversion H; auto.
  - intros q w'. destruct s as [[|k]|]; run; rewrite ?E; intro H;
      inversion H; subst; cbn [conversions trace gpio]; auto.
  - intro Hs. cbn [sigint] in Hs.
    destruct s as [[|k]|]; [ congruence | | ]; run; rewrite E; eauto.
Qed.

Lemma read_moisture_percentage_in_range_witness :
  exists p w',
    read_moisture_percentage coinciding_points (steady_world 20000 HIGH None)
    = (Normal p, w')
    /\ (0 <= p <= 100)%Q
    /\ conversions w' = 1%nat.
Proof.
  destruct (read_moisture_percentage_in_range coinciding_points
              (steady_world 20000 HIGH None)) as (_ & Returned & Returns).
  destruct Returns as (p & w' & R); [ discriminate | ].
  destruct (Returned p w' R) as (Rng & _ & C & _).
  exists p, w'. split; [ exact R | ]. split; [ exact Rng | exact C ].
Defined.
